(** * Session lifecycle and credential verification of the authentication notes

    A shallow embedding of the TypeScript snippets of
    [apps/rollyourownauth+aio/DOCS/auth-todo.mdx] (password hashing, session
    tokens, session expiry, the session queries and mutations) and of the
    [registerUser] mutation of the custom-authentication notes, over an
    explicit world: the two Prisma tables, the wall clock, the operating
    system's entropy source and the counter behind [cuid()].

    The snippets are thin wrappers over three collaborators that are not part
    of the repository: the Prisma client, the [bcrypt] package and Node's
    [crypto.randomBytes]/[Date].  Their behaviour is modelled in the first
    half of the file; the functions of the notes are then translated line by
    line on top of them. *)

From Stdlib Require Import List String Ascii ZArith Lia Bool Arith.
From Stdlib.Strings Require Import Byte.
From Stdlib.Numbers Require Import DecimalString DecimalNat.
Import ListNotations.

Local Open Scope string_scope.

(** ** Values *)

(** A JavaScript [Date]: a time value in milliseconds since the epoch, or the
    invalid date that [new Date(x)] yields when [x] is outside the range the
    language allows (ECMAScript's TimeClip). *)
Inductive Date : Type :=
| TimeValue (ms : Z)
| InvalidDate.

Definition max_time_value : Z := 8640000000000000.

(** [new Date(x)] for an integral number of milliseconds [x]. *)
Definition new_Date (x : Z) : Date :=
  if Z.leb (Z.abs x) max_time_value then TimeValue x else InvalidDate.

(** The Prisma schema of the notes: [enum UserRole], [model User],
    [model Session].  [DateTime] columns hold time values. *)
Inductive UserRole : Type := ADMIN | USER.

Module User.
Record t : Type := mk {
  id : string;
  username : string;
  email : string;
  password : string;
  role : UserRole;
  lastLoginAt : option Z;
  failedLoginAttempts : Z;
  createdAt : Z;
  updatedAt : Z
}.
End User.

Module Session.
Record t : Type := mk {
  id : string;
  userId : string;
  sessionToken : string;
  expiresAt : Z;
  ipAddress : option string;
  userAgent : option string;
  lastActiveAt : Z;
  createdAt : Z;
  updatedAt : Z
}.
End Session.

(** The [data] objects the snippets hand to [create]. *)
Module UserCreateInput.
Record t : Type := mk {
  email : string;
  password : string;
  username : string
}.
End UserCreateInput.

Module SessionCreateInput.
Record t : Type := mk {
  userId : string;
  sessionToken : string;
  expiresAt : Date;
  ipAddress : option string;
  userAgent : option string
}.
End SessionCreateInput.

(** ** The world and the monad of effects *)

(** Everything a snippet can read or change. [entropy] is the operating
    system's random source as an infinite stream of bytes, [drawn] the number
    of bytes already consumed; [issued] counts the identifiers [cuid()] has
    handed out.  [clock] is what [Date.now()] reads when a call starts;
    [lag] is how much later the store runs an insert of that call, which is
    when the schema's [now()] defaults are taken. *)
Record World : Type := mkWorld {
  users : list User.t;
  sessions : list Session.t;
  clock : Z;
  entropy : nat -> byte;
  drawn : nat;
  issued : nat;
  lag : Z
}.

Definition set_users (us : list User.t) (w : World) : World :=
  mkWorld us (sessions w) (clock w) (entropy w) (drawn w) (issued w) (lag w).

Definition set_sessions (ss : list Session.t) (w : World) : World :=
  mkWorld (users w) ss (clock w) (entropy w) (drawn w) (issued w) (lag w).

Definition set_clock (t : Z) (w : World) : World :=
  mkWorld (users w) (sessions w) t (entropy w) (drawn w) (issued w) (lag w).

Definition set_drawn (n : nat) (w : World) : World :=
  mkWorld (users w) (sessions w) (clock w) (entropy w) n (issued w) (lag w).

Definition set_issued (n : nat) (w : World) : World :=
  mkWorld (users w) (sessions w) (clock w) (entropy w) (drawn w) n (lag w).

Definition set_lag (ms : Z) (w : World) : World :=
  mkWorld (users w) (sessions w) (clock w) (entropy w) (drawn w) (issued w) ms.

(** The schema's [now()], as the store reads it when it runs an insert: not
    earlier than the clock reading of the call. *)
Definition store_now (w : World) : Z := (clock w + Z.max 0 (lag w))%Z.

(** What a rejected promise or a thrown error carries.  The first three are
    the Prisma client's known request errors: unique constraint failed on a
    field, foreign key constraint failed on a field, and a record the
    operation depends on was not found.  The last two are Node's: an argument
    outside the range a function accepts, and a string longer than the
    engine can hold. *)
Inductive Failure : Type :=
| P2002 (target : string)
| P2003 (field : string)
| P2025
| ValidationError (argument : string)
| InconsistentResult (field : string)
| BcryptError
| ERR_OUT_OF_RANGE (argument : string)
| ERR_STRING_TOO_LONG.

Inductive Result (A : Type) : Type :=
| Ok (a : A)
| Err (e : Failure).
Arguments Ok {A} a.
Arguments Err {A} e.

(** A computation of the snippets: it runs in a world and resolves to a
    value or rejects with a failure, leaving a world behind in both cases. *)
Definition M (A : Type) : Type := World -> Result A * World.

Definition ret {A : Type} (a : A) : M A := fun w => (Ok a, w).

Definition bind {A B : Type} (m : M A) (k : A -> M B) : M B :=
  fun w =>
    match m w with
    | (Ok a, w') => k a w'
    | (Err e, w') => (Err e, w')
    end.

Notation "x <- m ;; k" := (bind m (fun x => k))
  (at level 61, m at next level, right associativity).

(** A parameter default of JavaScript: [f(x = d)] called without [x]. *)
Definition or_default {A : Type} (d : A) (x : option A) : A :=
  match x with
  | Some a => a
  | None => d
  end.

(** ** Node's collaborators: the clock, the random source, hex encoding *)

(** [Date.now()]. *)
Definition Date_now : M Z := fun w => (Ok (clock w), w).

(** [new Date()]: the current time, always a valid date. *)
Definition new_Date_now : M Date := fun w => (Ok (TimeValue (clock w)), w).

(** The largest size [crypto.randomBytes] accepts: 2^31 - 1. *)
Definition max_random_bytes : N := 2147483647.

(** [crypto.randomBytes(size)] for a byte count [size]: the next [size] bytes
    of the random source; a size above 2^31 - 1 throws a range error and
    draws nothing. *)
Definition randomBytes (size : nat) : M (list byte) :=
  fun w =>
    if N.leb (N.of_nat size) max_random_bytes
    then (Ok (map (entropy w) (seq (drawn w) size)),
          set_drawn (drawn w + size) w)
    else (Err (ERR_OUT_OF_RANGE "size"), w).

Definition hex_digits : list ascii := list_ascii_of_string "0123456789abcdef".

Definition hex_digit (n : nat) : ascii := nth n hex_digits "0"%char.

Definition is_hex (c : ascii) : bool := existsb (Ascii.eqb c) hex_digits.

Definition hex_of_byte (b : byte) : string :=
  String (hex_digit (Byte.to_nat b / 16))
    (String (hex_digit (Byte.to_nat b mod 16)) EmptyString).

(** The hexadecimal encoding of a buffer: two lower-case digits per byte. *)
Fixpoint toString_hex (buf : list byte) : string :=
  match buf with
  | [] => EmptyString
  | b :: rest => hex_of_byte b ++ toString_hex rest
  end.

(** The longest string the engine holds
    ([buffer.constants.MAX_STRING_LENGTH]; 2^29 - 24 characters in V8 on
    64-bit platforms). *)
Definition MAX_STRING_LENGTH : N := 536870888.

(** The most bytes whose encoding still fits: 2^28 - 12. *)
Definition max_token_bytes : N := 268435444.

(** [buf.toString('hex')]: the encoding, or an error when it would be longer
    than a string can be. *)
Definition Buffer_toString_hex (buf : list byte) : M string :=
  fun w =>
    if N.leb (2 * N.of_nat (List.length buf)) MAX_STRING_LENGTH
    then (Ok (toString_hex buf), w)
    else (Err ERR_STRING_TOO_LONG, w).

Fixpoint string_forallb (p : ascii -> bool) (s : string) : bool :=
  match s with
  | EmptyString => true
  | String c s' => p c && string_forallb p s'
  end.

(** [cuid()], the schema's default identifier: the [n]-th identifier handed
    out, a fresh string for each [n]. *)
Definition cuid_of (n : nat) : string :=
  String "c"%char (NilEmpty.string_of_uint (Nat.to_uint n)).

(** ** The textual format of a bcrypt digest *)

Fixpoint string_take (n : nat) (s : string) : string :=
  match n, s with
  | S n', String c s' => String c (string_take n' s')
  | _, _ => EmptyString
  end.

Fixpoint string_drop (n : nat) (s : string) : string :=
  match n, s with
  | S n', String _ s' => string_drop n' s'
  | _, _ => s
  end.

Definition bcrypt_alphabet : list ascii :=
  list_ascii_of_string
    "./ABCDEFGHIJKLMNOPQRSTUVWXYZabcdefghijklmnopqrstuvwxyz0123456789".

Definition b64_char (n : nat) : ascii := nth (n mod 64) bcrypt_alphabet "."%char.

Definition is_b64 (c : ascii) : bool := existsb (Ascii.eqb c) bcrypt_alphabet.

(** bcrypt's own base-64: three bytes give four characters, a trailing byte
    two, a trailing pair three; there is no padding. *)
Fixpoint encode_base64 (bs : list byte) : string :=
  match bs with
  | [] => EmptyString
  | [b0] =>
      let n0 := Byte.to_nat b0 in
      String (b64_char (n0 / 4)) (String (b64_char (n0 mod 4 * 16)) EmptyString)
  | [b0; b1] =>
      let n0 := Byte.to_nat b0 in
      let n1 := Byte.to_nat b1 in
      String (b64_char (n0 / 4))
        (String (b64_char (n0 mod 4 * 16 + n1 / 16))
           (String (b64_char (n1 mod 16 * 4)) EmptyString))
  | b0 :: b1 :: b2 :: rest =>
      let n0 := Byte.to_nat b0 in
      let n1 := Byte.to_nat b1 in
      let n2 := Byte.to_nat b2 in
      String (b64_char (n0 / 4))
        (String (b64_char (n0 mod 4 * 16 + n1 / 16))
           (String (b64_char (n1 mod 16 * 4 + n2 / 64))
              (String (b64_char (n2 mod 64)) (encode_base64 rest))))
  end.

Definition digit_char (k : nat) : ascii := ascii_of_nat (48 + k).

Definition digit_val (c : ascii) : option nat :=
  let n := nat_of_ascii c in
  if Nat.leb 48 n && Nat.leb n 57 then Some (n - 48) else None.

Definition two_digits (n : nat) : string :=
  String (digit_char (n / 10)) (String (digit_char (n mod 10)) EmptyString).

(** bcrypt keeps the cost (the logarithm of the number of rounds) in 4..31. *)
Definition clamp_rounds (rounds : nat) : nat :=
  if Nat.ltb rounds 4 then 4 else if Nat.ltb 31 rounds then 31 else rounds.

Definition is_minor (c : ascii) : bool :=
  Ascii.eqb c "a"%char || Ascii.eqb c "b"%char.

(** Modelled from the spec: the bcrypt package is not among the sources.
    The self-describing digest, salt and cost factor embedded in the output,
    in bcrypt's layout: [$2<minor>$<cost>$], the 22 characters of the salt,
    then the characters of the hash proper. *)
Definition bcrypt_format (minor : ascii) (cost : nat) (salt hash : string)
  : string :=
  String "$"%char (String "2"%char (String minor (String "$"%char
    (two_digits cost ++ String "$"%char (salt ++ hash))))).

(** Modelled from the spec: the bcrypt package is not among the sources.
    Reading the embedded parameters back out of a digest; [None] on a
    malformed one. *)
Definition bcrypt_parse (digest : string)
  : option (ascii * nat * string * string) :=
  match digest with
  | String c0 (String c1 (String minor (String c3
      (String d1 (String d2 (String c6 rest)))))) =>
      match digit_val d1, digit_val d2 with
      | Some k1, Some k2 =>
          let cost := 10 * k1 + k2 in
          let salt := string_take 22 rest in
          if Ascii.eqb c0 "$"%char && Ascii.eqb c1 "2"%char && is_minor minor
             && Ascii.eqb c3 "$"%char && Ascii.eqb c6 "$"%char
             && Nat.leb 4 cost && Nat.leb cost 31
             && Nat.eqb (String.length salt) 22
             && string_forallb is_b64 salt
          then Some (minor, cost, salt, string_drop 22 rest)
          else None
      | _, _ => None
      end
  | _ => None
  end.

Definition well_formed_digest (digest : string) : Prop :=
  bcrypt_parse digest <> None.

(** ** The Prisma client over the two tables *)

(** The listings call the client [prisma] and [db] in turn; it is one client
    over one database.  Its operations are modelled as Prisma documents
    them, on the schema of the notes. *)

Definition has_token (token : string) (s : Session.t) : bool :=
  String.eqb (Session.sessionToken s) token.

Definition has_id (id : string) (u : User.t) : bool :=
  String.eqb (User.id u) id.

(** [prisma.session.create({ data })]: the insert is refused when the expiry
    is not a valid date, when the token is already taken
    ([sessionToken String @unique]) or when no user has the given id (the
    [user] relation); otherwise the row gets its defaults ([cuid()], and
    [now()] as the store reads it when the insert runs) and is appended to
    the table. *)
Definition prisma_session_create (data : SessionCreateInput.t) : M Session.t :=
  fun w =>
    match SessionCreateInput.expiresAt data with
    | InvalidDate => (Err (ValidationError "expiresAt"), w)
    | TimeValue expiry =>
        if existsb (has_token (SessionCreateInput.sessionToken data))
             (sessions w)
        then (Err (P2002 "sessionToken"), w)
        else if negb (existsb (has_id (SessionCreateInput.userId data))
                        (users w))
        then (Err (P2003 "userId"), w)
        else
          let row :=
            Session.mk (cuid_of (issued w))
              (SessionCreateInput.userId data)
              (SessionCreateInput.sessionToken data)
              expiry
              (SessionCreateInput.ipAddress data)
              (SessionCreateInput.userAgent data)
              (store_now w) (store_now w) (store_now w) in
          (Ok row,
           set_issued (S (issued w)) (set_sessions (sessions w ++ [row]) w))
    end.

(** [prisma.session.delete({ where: { sessionToken } })]: removes the row and
    resolves to it; rejects with P2025 when no row has that token. *)
Definition prisma_session_delete (sessionToken : string) : M Session.t :=
  fun w =>
    match find (has_token sessionToken) (sessions w) with
    | Some row =>
        (Ok row,
         set_sessions
           (filter (fun s => negb (has_token sessionToken s)) (sessions w))
           w)
    | None => (Err P2025, w)
    end.

(** [prisma.session.findUnique({ where: { sessionToken, expiresAt: { gt } },
    include: { user: true } })]: the row selected by the unique token and
    filtered by the further condition that its expiry is later than [gt],
    together with the user its [userId] refers to; [null] when there is
    none. *)
Definition prisma_session_findUnique
    (sessionToken : string) (expiresAt_gt : Date)
  : M (option (Session.t * User.t)) :=
  fun w =>
    match expiresAt_gt with
    | InvalidDate => (Err (ValidationError "expiresAt"), w)
    | TimeValue bound =>
        match find (fun s => has_token sessionToken s
                             && Z.ltb bound (Session.expiresAt s))
                (sessions w) with
        | None => (Ok None, w)
        | Some row =>
            match find (has_id (Session.userId row)) (users w) with
            | Some owner => (Ok (Some (row, owner)), w)
            | None => (Err (InconsistentResult "user"), w)
            end
        end
    end.

(** [db.user.create({ data })]: refused when the username or the email is
    taken (both [@unique]); otherwise the row gets its defaults and is
    appended to the table. *)
Definition db_user_create (data : UserCreateInput.t) : M User.t :=
  fun w =>
    if existsb (fun u => String.eqb (User.username u)
                           (UserCreateInput.username data)) (users w)
    then (Err (P2002 "username"), w)
    else if existsb (fun u => String.eqb (User.email u)
                                (UserCreateInput.email data)) (users w)
    then (Err (P2002 "email"), w)
    else
      let row :=
        User.mk (cuid_of (issued w))
          (UserCreateInput.username data)
          (UserCreateInput.email data)
          (UserCreateInput.password data)
          USER None 0%Z (store_now w) (store_now w) in
      (Ok row, set_issued (S (issued w)) (set_users (users w ++ [row]) w)).

(** ** The session snippets of the notes *)

(** [utilities/generate-session-token.ts]; [bytes] defaults to 32. *)
Definition generateSessionToken (bytes : option nat) : M string :=
  let bytes := or_default 32 bytes in
  buf <- randomBytes bytes ;;
  Buffer_toString_hex buf.

(** [utilities/generate-session-expiry.ts]; [hours] defaults to 24. *)
Definition generateSessionExpiry (hours : option Z) : M Date :=
  let hours := or_default 24%Z hours in
  now <- Date_now ;;
  ret (new_Date (now + hours * 60 * 60 * 1000)%Z).

(** [server/queries/generate-session.ts]. *)
Definition createSession (userId : string) (ipAddress userAgent : option string)
  : M Session.t :=
  sessionToken <- generateSessionToken None ;;
  expiresAt <- generateSessionExpiry None ;;
  prisma_session_create
    (SessionCreateInput.mk userId sessionToken expiresAt ipAddress userAgent).

(** [server/mutation/invalidate-session.ts]. *)
Definition invalidateSession (sessionToken : string) : M Session.t :=
  prisma_session_delete sessionToken.

(** The notes give [getValidSession] twice.  This is the first listing, filed
    under [server/mutation]. *)
Module Mutation.
Definition getValidSession (sessionToken : string)
  : M (option (Session.t * User.t)) :=
  gt <- new_Date_now ;;
  prisma_session_findUnique sessionToken gt.
End Mutation.

(** The second listing, filed under [server/queries] (inside the garbled code
    block). *)
Module Queries.
Definition getValidSession (sessionToken : string)
  : M (option (Session.t * User.t)) :=
  gt <- new_Date_now ;;
  prisma_session_findUnique sessionToken gt.
End Queries.

(** ** The credential snippets, over the bcrypt package *)

Section Credentials.

(** The key-derivation core of bcrypt (the expensive Blowfish key schedule):
    from the format's minor version, the cost, the salt characters and the
    password to the characters of the hash.  It is a parameter of the
    development: nothing below depends on how it computes. *)
Variable bcrypt_raw : ascii -> nat -> string -> string -> string.

(** What [compare] answers for a digest it cannot parse.  The specification
    has it signal an error, the bcrypt package resolves to [false]; the
    development holds for either choice. *)
Variable on_malformed : Result bool.

Definition bcrypt_hashpw (minor : ascii) (cost : nat) (salt password : string)
  : string :=
  bcrypt_format minor cost salt (bcrypt_raw minor cost salt password).

(** Modelled from the spec: the bcrypt package is not among the sources.
    [bcrypt.hash(data, rounds)] is the specification's [hash]: a salted
    one-way function with a work factor, whose digest embeds salt and cost.
    The salt is 16 fresh random bytes in bcrypt's base-64. *)
Definition bcrypt_hash (data : string) (rounds : nat) : M string :=
  saltBytes <- randomBytes 16 ;;
  ret (bcrypt_hashpw "b"%char (clamp_rounds rounds)
         (encode_base64 saltBytes) data).

(** Modelled from the spec: the bcrypt package is not among the sources.
    [bcrypt.compare(data, encrypted)] is the specification's [verify]: it
    recomputes the hash with the parameters embedded in the digest and
    compares the two strings. *)
Definition bcrypt_compare (data encrypted : string) : M bool :=
  match bcrypt_parse encrypted with
  | Some (minor, cost, salt, _) =>
      ret (String.eqb (bcrypt_hashpw minor cost salt data) encrypted)
  | None => fun w => (on_malformed, w)
  end.

(** [utilities/hash-password.ts] (and, with the same body, [utils/hash.ts]
    of the custom-authentication notes). *)
Definition hashPassword (password : string) : M string :=
  let saltRounds := 10 in
  bcrypt_hash password saltRounds.

(** [utilities/verify-password.ts]. *)
Definition verifyPassword (password hash : string) : M bool :=
  bcrypt_compare password hash.

(** [mutations/register-user.ts] of the custom-authentication notes. *)
Definition registerUser (email password username : string) : M User.t :=
  hashedPassword <- hashPassword password ;;
  db_user_create (UserCreateInput.mk email hashedPassword username).

(** *** Histories *)

(** The calls a client of the module can make, the passing of time, and a
    change in how long the store takes to run an insert. *)
Inductive Request : Type :=
| Register (email password username : string)
| CreateSession (userId : string) (ipAddress userAgent : option string)
| InvalidateSession (sessionToken : string)
| GetValidSession (sessionToken : string)
| Elapse (ms : Z)
| Stall (ms : Z).

Definition handle (w : World) (r : Request) : World :=
  match r with
  | Register e p u => snd (registerUser e p u w)
  | CreateSession uid ip ua => snd (createSession uid ip ua w)
  | InvalidateSession tok => snd (invalidateSession tok w)
  | GetValidSession tok => snd (Mutation.getValidSession tok w)
  | Elapse ms => set_clock (clock w + Z.max 0 ms) w
  | Stall ms => set_lag ms w
  end.

Definition run (history : list Request) (w : World) : World :=
  fold_left handle history w.

End Credentials.

(** A freshly migrated database: both tables empty. *)
Definition boot (now : Z) (source : nat -> byte) : World :=
  mkWorld [] [] now source 0 0 0.

(** ** Invariants of the store *)

Definition tokens_unique (w : World) : Prop :=
  NoDup (map Session.sessionToken (sessions w)).

Definition sessions_owned (w : World) : Prop :=
  forall s, In s (sessions w) ->
    exists u, In u (users w) /\ User.id u = Session.userId s.

Definition users_unique (w : World) : Prop :=
  NoDup (map User.id (users w)).

Definition consistent (w : World) : Prop :=
  tokens_unique w /\ sessions_owned w /\ users_unique w.

(** Every identifier in the user table came out of [cuid()]. *)
Definition ids_issued (w : World) : Prop :=
  forall u, In u (users w) -> exists k, k < issued w /\ User.id u = cuid_of k.

(** A digest of cost factor 10, as [hashPassword] asks for. *)
Definition cost10_digest (digest : string) : Prop :=
  exists salt hash, bcrypt_parse digest = Some ("b"%char, 10, salt, hash).

Definition passwords_hashed (w : World) : Prop :=
  forall u, In u (users w) -> cost10_digest (User.password u).

(** What every history keeps true of the store. *)
Definition invariant (w : World) : Prop :=
  consistent w /\ ids_issued w /\ passwords_hashed w.

(** A session row as [createSession] makes them: a token of 64 hexadecimal
    characters and an expiry at most 24 hours after the creation stamp. *)
Definition sessions_shaped (w : World) : Prop :=
  forall s, In s (sessions w) ->
    String.length (Session.sessionToken s) = 64
    /\ string_forallb is_hex (Session.sessionToken s) = true
    /\ (Session.expiresAt s <= Session.createdAt s + 86400 * 1000)%Z.

(** The salt [bcrypt.hash] draws in world [w], and the token
    [generateSessionToken()] draws there. *)
Definition next_salt (w : World) : string :=
  encode_base64 (map (entropy w) (seq (drawn w) 16)).

Definition next_token (w : World) : string :=
  toString_hex (map (entropy w) (seq (drawn w) 32)).

(** ** Sample worlds *)

(** A random source that counts: byte [i] of the stream is [i mod 256]. *)
Definition counting (i : nat) : byte :=
  match Byte.of_nat (i mod 256) with
  | Some b => b
  | None => x00
  end.

(** A stand-in for the key-derivation core, to run the examples with. *)
Definition sample_raw (minor : ascii) (cost : nat) (salt password : string)
  : string :=
  salt ++ password.

(** A random source that is stuck: every byte is zero. *)
Definition stuck (i : nat) : byte := x00.

Definition sample_time : Z := 1700000000000.

Definition alice : User.t :=
  User.mk "c0" "alice" "a@x.com"
    "$2b$10$......................alices-digest"
    USER None 0%Z sample_time sample_time.

(** The token the counting source yields first. *)
Definition first_token : string := toString_hex (map counting (seq 0 32)).

Definition alice_session : Session.t :=
  Session.mk "c1" "c0" first_token (sample_time + 86400000)%Z None None
    sample_time sample_time sample_time.

(** Alice is logged in, and the random source is about to repeat her
    token. *)
Definition one_session : World :=
  mkWorld [alice] [alice_session] sample_time counting 0 2 1.

(** Alice has registered on a fresh database, with the counting source. *)
Definition registered : World :=
  run sample_raw [Register "a@x.com" "pw123!" "alice"]
    (boot sample_time counting).



(** * Facts *)

(** ** Strings *)

Lemma string_take_app (n : nat) (s1 s2 : string) :
  String.length s1 = n -> string_take n (s1 ++ s2) = s1.
Proof.
  intros <-; induction s1 as [|c s1 IH]; simpl.
  - now destruct s2.
  - now rewrite IH.
Qed.

Lemma string_drop_app (n : nat) (s1 s2 : string) :
  String.length s1 = n -> string_drop n (s1 ++ s2) = s2.
Proof.
  intros <-; induction s1 as [|c s1 IH]; simpl; [reflexivity | exact IH].
Qed.

Lemma string_take_drop (n : nat) (s : string) :
  string_take n s ++ string_drop n s = s.
Proof.
  revert s; induction n as [|n IH]; intros [|c s]; simpl; try reflexivity.
  now rewrite IH.
Qed.

Lemma string_forallb_app (p : ascii -> bool) (s1 s2 : string) :
  string_forallb p (s1 ++ s2) = string_forallb p s1 && string_forallb p s2.
Proof.
  induction s1 as [|c s1 IH]; simpl; [reflexivity|].
  now rewrite IH, andb_assoc.
Qed.

(** ** Hexadecimal encoding *)

Lemma hex_of_byte_is_hex (b : byte) :
  string_forallb is_hex (hex_of_byte b) = true.
Proof. destruct b; reflexivity. Qed.

Lemma toString_hex_length (buf : list byte) :
  String.length (toString_hex buf) = 2 * List.length buf.
Proof.
  induction buf as [|b buf IH]; simpl; [reflexivity|].
  rewrite IH; lia.
Qed.

Lemma toString_hex_is_hex (buf : list byte) :
  string_forallb is_hex (toString_hex buf) = true.
Proof.
  induction buf as [|b buf IH]; [reflexivity|].
  change (toString_hex (b :: buf)) with (hex_of_byte b ++ toString_hex buf).
  now rewrite string_forallb_app, hex_of_byte_is_hex, IH.
Qed.

(** ** The digest format *)

Lemma b64_char_is_b64 (n : nat) : is_b64 (b64_char n) = true.
Proof.
  unfold b64_char.
  assert (H : n mod 64 < 64) by (apply Nat.mod_upper_bound; discriminate).
  revert H; generalize (n mod 64) as k; intros k H.
  do 64 (destruct k as [|k]; [reflexivity|]).
  lia.
Qed.

Lemma encode_base64_salt (bs : list byte) :
  List.length bs = 16 ->
  String.length (encode_base64 bs) = 22
  /\ string_forallb is_b64 (encode_base64 bs) = true.
Proof.
  intros H.
  do 16 (destruct bs as [|? bs]; [discriminate H|]).
  destruct bs; [|discriminate H].
  split; [reflexivity|].
  cbn [encode_base64 string_forallb].
  now rewrite !b64_char_is_b64.
Qed.

Lemma digit_val_char (k : nat) : k < 10 -> digit_val (digit_char k) = Some k.
Proof.
  intros H; unfold digit_val, digit_char.
  rewrite nat_ascii_embedding by lia.
  replace (Nat.leb 48 (48 + k)) with true by (symmetry; apply Nat.leb_le; lia).
  replace (Nat.leb (48 + k) 57) with true by (symmetry; apply Nat.leb_le; lia).
  cbn [andb]; f_equal; lia.
Qed.

Lemma digit_char_val (c : ascii) (k : nat) :
  digit_val c = Some k -> digit_char k = c /\ k < 10.
Proof.
  unfold digit_val, digit_char.
  destruct (Nat.leb 48 (nat_of_ascii c)) eqn:Hlo; [|discriminate].
  destruct (Nat.leb (nat_of_ascii c) 57) eqn:Hhi; [|discriminate].
  cbn [andb]; intros [= <-].
  apply Nat.leb_le in Hlo, Hhi.
  split; [|lia].
  replace (48 + (nat_of_ascii c - 48)) with (nat_of_ascii c) by lia.
  apply ascii_nat_embedding.
Qed.

Lemma bcrypt_parse_format (minor : ascii) (cost : nat) (salt hash : string) :
  is_minor minor = true ->
  4 <= cost <= 31 ->
  String.length salt = 22 ->
  string_forallb is_b64 salt = true ->
  bcrypt_parse (bcrypt_format minor cost salt hash)
  = Some (minor, cost, salt, hash).
Proof.
  intros Hm Hc Hlen Hb64.
  unfold bcrypt_format, two_digits, bcrypt_parse; cbn [append].
  assert (Hq : cost / 10 < 10) by (apply Nat.Div0.div_lt_upper_bound; lia).
  assert (Hr : cost mod 10 < 10) by (apply Nat.mod_upper_bound; lia).
  rewrite (digit_val_char _ Hq), (digit_val_char _ Hr).
  rewrite <- (Nat.div_mod_eq cost 10).
  rewrite (string_take_app 22 salt hash Hlen).
  rewrite (string_drop_app 22 salt hash Hlen), Hlen, Hm, Hb64.
  replace (Nat.leb 4 cost) with true by (symmetry; apply Nat.leb_le; lia).
  replace (Nat.leb cost 31) with true by (symmetry; apply Nat.leb_le; lia).
  reflexivity.
Qed.

Lemma bcrypt_format_parse (digest : string) minor cost salt hash :
  bcrypt_parse digest = Some (minor, cost, salt, hash) ->
  bcrypt_format minor cost salt hash = digest
  /\ is_minor minor = true /\ 4 <= cost <= 31
  /\ String.length salt = 22 /\ string_forallb is_b64 salt = true.
Proof.
  unfold bcrypt_parse.
  destruct digest as [|c0 [|c1 [|m [|c3 [|d1 [|d2 [|c6 rest]]]]]]];
    try discriminate.
  destruct (digit_val d1) as [k1|] eqn:H1; [|discriminate].
  destruct (digit_val d2) as [k2|] eqn:H2; [|discriminate].
  set (cst := 10 * k1 + k2).
  set (slt := string_take 22 rest).
  set (hsh := string_drop 22 rest).
  match goal with |- (if ?b then _ else _) = _ -> _ => destruct b eqn:Hb end;
    [|discriminate].
  intros [= <- <- <- <-].
  repeat (apply andb_true_iff in Hb; destruct Hb as [Hb ?]).
  apply Ascii.eqb_eq in Hb.
  repeat match goal with
         | H : Ascii.eqb _ _ = true |- _ => apply Ascii.eqb_eq in H
         | H : Nat.leb _ _ = true |- _ => apply Nat.leb_le in H
         | H : Nat.eqb _ _ = true |- _ => apply Nat.eqb_eq in H
         end.
  subst c0 c1 c3 c6.
  apply digit_char_val in H1, H2.
  destruct H1 as [<- Hk1], H2 as [<- Hk2].
  split; [|repeat split; assumption].
  unfold bcrypt_format, two_digits; cbn [append].
  replace (cst / 10) with k1
    by (apply (Nat.div_unique _ 10 k1 k2); subst cst; lia).
  replace (cst mod 10) with k2
    by (apply (Nat.mod_unique _ 10 k1 k2); subst cst; lia).
  subst slt hsh.
  now rewrite string_take_drop.
Qed.

(** ** Lists of rows *)

Lemma NoDup_map_eq {A B : Type} (f : A -> B) (l : list A) (a b : A) :
  NoDup (map f l) -> In a l -> In b l -> f a = f b -> a = b.
Proof.
  induction l as [|x l IH]; simpl; [contradiction|].
  intros Hnd Ha Hb Hf.
  inversion Hnd as [|? ? Hx Hl]; subst.
  destruct Ha as [<-|Ha], Hb as [<-|Hb]; auto.
  - exfalso; apply Hx; rewrite Hf; now apply in_map.
  - exfalso; apply Hx; rewrite <- Hf; now apply in_map.
Qed.

Lemma existsb_has_token (token : string) (ss : list Session.t) :
  existsb (has_token token) ss = true <-> In token (map Session.sessionToken ss).
Proof.
  rewrite existsb_exists, in_map_iff; unfold has_token.
  split; intros (s & H1 & H2).
  - apply String.eqb_eq in H2. now exists s.
  - exists s. split; [assumption | now apply String.eqb_eq].
Qed.

Lemma find_has_token_none (token : string) (ss : list Session.t) :
  (forall s, In s ss -> Session.sessionToken s <> token) ->
  forall p, find (fun s => has_token token s && p s) ss = None.
Proof.
  intros H p; induction ss as [|s ss IH]; simpl; [reflexivity|].
  unfold has_token at 1.
  destruct (String.eqb_spec (Session.sessionToken s) token) as [E|_].
  - exfalso; apply (H s); [now left | exact E].
  - apply IH; intros s' Hs'; apply H; now right.
Qed.

Lemma find_id_some (us : list User.t) (u : User.t) :
  NoDup (map User.id us) -> In u us -> find (has_id (User.id u)) us = Some u.
Proof.
  intros Hnd Hin.
  destruct (find (has_id (User.id u)) us) as [u'|] eqn:F.
  - apply find_some in F; destruct F as [Hin' E]; unfold has_id in E.
    apply String.eqb_eq in E.
    f_equal; exact (NoDup_map_eq User.id us u' u Hnd Hin' Hin E).
  - exfalso. apply (find_none _ _ F) in Hin; unfold has_id in Hin.
    now rewrite String.eqb_refl in Hin.
Qed.

Lemma cuid_of_inj (n m : nat) : cuid_of n = cuid_of m -> n = m.
Proof.
  unfold cuid_of; intros [= H].
  apply DecimalNat.Unsigned.to_uint_inj.
  pose proof (NilEmpty.usu (Nat.to_uint n)) as Hn.
  pose proof (NilEmpty.usu (Nat.to_uint m)) as Hm.
  rewrite H in Hn; rewrite Hn in Hm; now injection Hm.
Qed.

(** ** Session tokens and expiry *)

Lemma generateSessionToken_small (n : nat) (w : World) :
  (N.of_nat n <= max_token_bytes)%N ->
  generateSessionToken (Some n) w
  = (Ok (toString_hex (map (entropy w) (seq (drawn w) n))),
     set_drawn (drawn w + n) w).
Proof.
  unfold max_token_bytes; intros Hn.
  unfold generateSessionToken, bind, randomBytes, Buffer_toString_hex,
    or_default.
  replace (N.leb (N.of_nat n) max_random_bytes) with true
    by (symmetry; apply N.leb_le; unfold max_random_bytes; lia).
  rewrite length_map, length_seq.
  replace (N.leb (2 * N.of_nat n) MAX_STRING_LENGTH) with true
    by (symmetry; apply N.leb_le; unfold MAX_STRING_LENGTH; lia).
  reflexivity.
Qed.

Lemma generateSessionToken_large (n : nat) (w : World) :
  (max_random_bytes < N.of_nat n)%N ->
  generateSessionToken (Some n) w = (Err (ERR_OUT_OF_RANGE "size"), w).
Proof.
  intros Hn.
  unfold generateSessionToken, bind, randomBytes, or_default.
  replace (N.leb (N.of_nat n) max_random_bytes) with false
    by (symmetry; apply N.leb_gt; exact Hn).
  reflexivity.
Qed.

Lemma generateSessionToken_returns
    (bytes : option nat) (w w1 : World) (token : string) :
  generateSessionToken bytes w = (Ok token, w1) ->
  token = toString_hex (map (entropy w) (seq (drawn w) (or_default 32 bytes)))
  /\ w1 = set_drawn (drawn w + or_default 32 bytes) w.
Proof.
  unfold generateSessionToken, bind, randomBytes, Buffer_toString_hex.
  destruct (N.leb (N.of_nat (or_default 32 bytes)) max_random_bytes);
    [|discriminate].
  destruct (N.leb _ MAX_STRING_LENGTH); [|discriminate].
  intros [= <- <-]; split; reflexivity.
Qed.

(** C9, as the code behaves: for every byte count n whose encoding fits in
    a string (n up to 2^28 - 12), generateSessionToken(n) is the hexadecimal
    encoding of the next n random bytes, a string of exactly 2*n hexadecimal
    characters, 64 with the default of 32 bytes; whenever it returns a token
    at all the token has exactly 2*n hexadecimal characters; for n above
    2^31 - 1 it throws a range error and returns no token. *)
Theorem generateSessionToken_fixed_length (w : World) :
  (forall n : nat,
      (N.of_nat n <= max_token_bytes)%N ->
      exists token,
        generateSessionToken (Some n) w
        = (Ok token, set_drawn (drawn w + n) w)
        /\ token = toString_hex (map (entropy w) (seq (drawn w) n))
        /\ String.length token = 2 * n
        /\ string_forallb is_hex token = true)
  /\ (exists token,
        generateSessionToken None w = (Ok token, set_drawn (drawn w + 32) w)
        /\ String.length token = 64
        /\ string_forallb is_hex token = true)
  /\ (forall (bytes : option nat) (token : string) (w1 : World),
        generateSessionToken bytes w = (Ok token, w1) ->
        String.length token = 2 * or_default 32 bytes
        /\ string_forallb is_hex token = true)
  /\ (forall n : nat,
        (max_random_bytes < N.of_nat n)%N ->
        generateSessionToken (Some n) w
        = (Err (ERR_OUT_OF_RANGE "size"), w)).
Proof.
  assert (G : forall n,
             String.length (toString_hex (map (entropy w) (seq (drawn w) n)))
             = 2 * n).
  { intros n. now rewrite toString_hex_length, length_map, length_seq. }
  split; [|split; [|split]].
  - intros n Hn; eexists; split; [now apply generateSessionToken_small|].
    split; [reflexivity|]. split; [apply G | apply toString_hex_is_hex].
  - eexists; split; [reflexivity|].
    split; [apply (G 32) | apply toString_hex_is_hex].
  - intros bytes token w1 H.
    apply generateSessionToken_returns in H; destruct H as [-> _].
    split; [apply G | apply toString_hex_is_hex].
  - intros n; apply generateSessionToken_large.
Qed.

Lemma generateSessionToken_fixed_length_witness :
  exists token,
    generateSessionToken (Some 3) one_session
    = (Ok token, set_drawn (drawn one_session + 3) one_session)
    /\ String.length token = 6.
Proof.
  destruct (proj1 (generateSessionToken_fixed_length one_session) 3)
    as (token & E & _ & Hlen & _).
  - vm_compute; discriminate.
  - exists token; split; [exact E | exact Hlen].
Defined.

(** C9, as stated, fails: a byte count of 2^31 is refused by the random
    source, so no token of 2^32 characters is returned. *)
Lemma generateSessionToken_rejects_large :
  generateSessionToken (Some (2 ^ 31)%nat) one_session
  = (Err (ERR_OUT_OF_RANGE "size"), one_session).
Proof.
  apply generateSessionToken_large.
  apply N2Z.inj_lt; rewrite nat_N_Z, Nat2Z.inj_pow; reflexivity.
Qed.

(** C8: called at time T (the world's clock), generateSessionExpiry returns
    T + 86400 seconds with the default of 24 hours and T plus the requested
    hours in general, as long as that is a time a Date can hold; the result
    depends on the clock and the argument only, and the world is left as it
    was. *)
Theorem generateSessionExpiry_adds_hours (hours : Z) (w : World) :
  (Z.abs (clock w + 86400 * 1000) <= max_time_value)%Z ->
  (Z.abs (clock w + hours * 3600 * 1000) <= max_time_value)%Z ->
  generateSessionExpiry None w
  = (Ok (TimeValue (clock w + 86400 * 1000)), w)
  /\ generateSessionExpiry (Some hours) w
     = (Ok (TimeValue (clock w + hours * 3600 * 1000)), w)
  /\ (forall (h : option Z) (w' : World),
         clock w' = clock w ->
         fst (generateSessionExpiry h w') = fst (generateSessionExpiry h w)).
Proof.
  intros Hday Hhours.
  unfold generateSessionExpiry, bind, Date_now, ret, new_Date, or_default.
  repeat split.
  - replace (clock w + 24 * 60 * 60 * 1000)%Z
      with (clock w + 86400 * 1000)%Z by lia.
    apply Z.leb_le in Hday; now rewrite Hday.
  - replace (clock w + hours * 60 * 60 * 1000)%Z
      with (clock w + hours * 3600 * 1000)%Z by lia.
    apply Z.leb_le in Hhours; now rewrite Hhours.
  - intros h w' Hclock; cbn [fst]; now rewrite Hclock.
Qed.

(** ** The session validator *)

Lemma getValidSession_unfold (token : string) (w : World) :
  Mutation.getValidSession token w
  = match find (fun s => has_token token s
                         && Z.ltb (clock w) (Session.expiresAt s))
            (sessions w) with
    | None => (Ok None, w)
    | Some row =>
        match find (has_id (Session.userId row)) (users w) with
        | Some owner => (Ok (Some (row, owner)), w)
        | None => (Err (InconsistentResult "user"), w)
        end
    end.
Proof. reflexivity. Qed.

Lemma find_all_false {A : Type} (p : A -> bool) (l : list A) :
  (forall x, In x l -> p x = false) -> find p l = None.
Proof.
  intros H; induction l as [|a l IH]; simpl; [reflexivity|].
  rewrite (H a) by now left.
  apply IH; intros x Hx; apply H; now right.
Qed.

Lemma find_valid_row (token : string) (w : World) (s : Session.t) :
  tokens_unique w ->
  In s (sessions w) ->
  Session.sessionToken s = token ->
  (clock w < Session.expiresAt s)%Z ->
  find (fun s => has_token token s && Z.ltb (clock w) (Session.expiresAt s))
    (sessions w) = Some s.
Proof.
  intros Hnd Hin Htok Hlive.
  match goal with |- find ?p _ = _ => destruct (find p (sessions w)) as [s'|] eqn:F end.
  - apply find_some in F; destruct F as [Hin' Hp].
    apply andb_true_iff in Hp; destruct Hp as [Hp _].
    unfold has_token in Hp; apply String.eqb_eq in Hp.
    f_equal.
    apply (NoDup_map_eq Session.sessionToken (sessions w) s' s Hnd Hin' Hin).
    congruence.
  - exfalso. apply (find_none _ _ F) in Hin; cbv beta in Hin.
    unfold has_token in Hin.
    rewrite Htok, String.eqb_refl in Hin.
    apply Z.ltb_lt in Hlive; rewrite Hlive in Hin; discriminate.
Qed.

Lemma getValidSession_absent (token : string) (w : World) :
  (forall s, In s (sessions w) -> Session.sessionToken s <> token) ->
  Mutation.getValidSession token w = (Ok None, w).
Proof.
  intros Hnone; rewrite getValidSession_unfold.
  now rewrite find_has_token_none.
Qed.

Lemma getValidSession_expired (token : string) (w : World) (s : Session.t) :
  tokens_unique w ->
  In s (sessions w) -> Session.sessionToken s = token ->
  (Session.expiresAt s <= clock w)%Z ->
  Mutation.getValidSession token w = (Ok None, w).
Proof.
  intros Htok Hin Hs Hexp; rewrite getValidSession_unfold.
  rewrite find_all_false; [reflexivity|].
  intros s' Hin'; unfold has_token.
  destruct (String.eqb_spec (Session.sessionToken s') token) as [E|_];
    [|reflexivity].
  assert (s' = s)
    by (apply (NoDup_map_eq Session.sessionToken (sessions w) s' s
                 Htok Hin' Hin); congruence).
  subst s'; cbn [andb]. apply Z.ltb_ge; exact Hexp.
Qed.

Lemma getValidSession_live (token : string) (w : World) (s : Session.t) (u : User.t) :
  tokens_unique w -> users_unique w ->
  In s (sessions w) -> Session.sessionToken s = token ->
  (clock w < Session.expiresAt s)%Z ->
  In u (users w) -> User.id u = Session.userId s ->
  Mutation.getValidSession token w = (Ok (Some (s, u)), w).
Proof.
  intros Htok Huniq Hin Hs Hlive Hu Hid; rewrite getValidSession_unfold.
  rewrite (find_valid_row token w s Htok Hin Hs Hlive).
  now rewrite <- Hid, (find_id_some (users w) u Huniq Hu).
Qed.

(** C1: in a consistent store, getValidSession(token) resolves to the same
    absent result both when no session row has the token and when the row
    with that token has expiresAt <= now, and it resolves to a session
    together with a user exactly when that session is the row with the token,
    its expiresAt is strictly later than now, and the user is the one its
    userId refers to; it never rejects. *)
Theorem getValidSession_spec (token : string) (w : World) :
  consistent w ->
  ((forall s, In s (sessions w) -> Session.sessionToken s <> token) ->
   Mutation.getValidSession token w = (Ok None, w))
  /\ (forall s,
         In s (sessions w) -> Session.sessionToken s = token ->
         (Session.expiresAt s <= clock w)%Z ->
         Mutation.getValidSession token w = (Ok None, w))
  /\ (forall s u,
         Mutation.getValidSession token w = (Ok (Some (s, u)), w)
         <-> In s (sessions w) /\ Session.sessionToken s = token
             /\ (clock w < Session.expiresAt s)%Z
             /\ In u (users w) /\ User.id u = Session.userId s)
  /\ (exists r, Mutation.getValidSession token w = (Ok r, w)).
Proof.
  intros (Htok & Hown & Huniq).
  split; [|split; [|split]].
  - apply getValidSession_absent.
  - intros s; now apply getValidSession_expired.
  - intros s u; split.
    + rewrite getValidSession_unfold.
      destruct (find _ (sessions w)) as [row|] eqn:F; [|discriminate].
      destruct (find _ (users w)) as [owner|] eqn:G; [|discriminate].
      intros [= -> ->].
      apply find_some in F; destruct F as [Hin Hp].
      apply andb_true_iff in Hp; destruct Hp as [Ht Hl].
      apply find_some in G; destruct G as [Hu Hid].
      unfold has_token in Ht; unfold has_id in Hid.
      apply String.eqb_eq in Ht, Hid; apply Z.ltb_lt in Hl.
      now repeat split.
    + intros (Hin & Hs & Hlive & Hu & Hid).
      now apply getValidSession_live.
  - rewrite getValidSession_unfold.
    destruct (find _ (sessions w)) as [row|] eqn:F; [|eexists; reflexivity].
    apply find_some in F; destruct F as [Hin _].
    destruct (Hown row Hin) as (u & Hu & Hid).
    rewrite <- Hid, (find_id_some (users w) u Huniq Hu).
    eexists; reflexivity.
Qed.

(** C10: the two listings of getValidSession in the notes (under
    server/mutation and under server/queries) give the same result in every
    store and for every token. *)
Theorem getValidSession_listings_agree (token : string) (w : World) :
  Mutation.getValidSession token w = Queries.getValidSession token w.
Proof.
  unfold Mutation.getValidSession, Queries.getValidSession.
  reflexivity.
Qed.

(** ** Invalidating a session *)

Lemma find_has_token_some (token : string) (ss : list Session.t) (s : Session.t) :
  find (has_token token) ss = Some s ->
  In s ss /\ Session.sessionToken s = token.
Proof.
  intros F; apply find_some in F; destruct F as [Hin E].
  split; [exact Hin | now apply String.eqb_eq].
Qed.

Lemma find_has_token_filtered (token : string) (ss : list Session.t) :
  find (has_token token) (filter (fun s => negb (has_token token s)) ss) = None.
Proof.
  apply find_all_false; intros s Hs.
  apply filter_In in Hs; destruct Hs as [_ Hs].
  now apply negb_true_iff in Hs.
Qed.

(** C3, as the code behaves: invalidateSession(token) removes the row with
    that token and resolves to it when there is one, after which a second
    call on the same token is rejected; when no row has the token the call is
    rejected with Prisma's record-not-found error and the store is left as it
    was. *)
Theorem invalidateSession_deletes_or_rejects (token : string) (w : World) :
  match invalidateSession token w with
  | (Ok s, w1) =>
      In s (sessions w) /\ Session.sessionToken s = token
      /\ sessions w1
         = filter (fun s => negb (has_token token s)) (sessions w)
      /\ users w1 = users w
      /\ invalidateSession token w1 = (Err P2025, w1)
  | (Err e, w1) =>
      e = P2025 /\ w1 = w
      /\ forall s, In s (sessions w) -> Session.sessionToken s <> token
  end.
Proof.
  unfold invalidateSession, prisma_session_delete.
  destruct (find (has_token token) (sessions w)) as [s|] eqn:F.
  - destruct (find_has_token_some _ _ _ F) as [Hin Htok].
    repeat split; try assumption.
    cbn [sessions set_sessions].
    now rewrite find_has_token_filtered.
  - repeat split.
    intros s Hin E. apply (find_none _ _ F) in Hin.
    unfold has_token in Hin; rewrite E, String.eqb_refl in Hin; discriminate.
Qed.

(** C3, as stated, fails: logging Alice out twice rejects the
    second time, and so does invalidating a token no session has. *)
Lemma invalidateSession_not_idempotent :
  (exists w1,
      invalidateSession first_token one_session = (Ok alice_session, w1)
      /\ fst (invalidateSession first_token w1) = Err P2025)
  /\ fst (invalidateSession "no-such-token" one_session) = Err P2025.
Proof.
  split; [eexists; split|]; vm_compute; reflexivity.
Qed.

(** ** Creating a session *)

Lemma createSession_unfold (userId : string) (ip ua : option string) (w : World) :
  createSession userId ip ua w
  = prisma_session_create
      (SessionCreateInput.mk userId (next_token w)
         (new_Date (clock w + 24 * 60 * 60 * 1000)%Z) ip ua)
      (set_drawn (drawn w + 32) w).
Proof. reflexivity. Qed.

(** What a call of [createSession] can do to the world. *)
Lemma createSession_cases (userId : string) (ip ua : option string) (w : World) :
  (exists e,
      createSession userId ip ua w = (Err e, set_drawn (drawn w + 32) w))
  \/ (exists row,
        createSession userId ip ua w
        = (Ok row,
           set_issued (S (issued w))
             (set_sessions (sessions w ++ [row])
                (set_drawn (drawn w + 32) w)))
        /\ Session.userId row = userId
        /\ Session.sessionToken row = next_token w
        /\ ~ In (next_token w) (map Session.sessionToken (sessions w))
        /\ (exists u, In u (users w) /\ User.id u = userId)
        /\ Session.expiresAt row = (clock w + 86400 * 1000)%Z).
Proof.
  rewrite createSession_unfold; unfold prisma_session_create.
  cbn [SessionCreateInput.expiresAt SessionCreateInput.sessionToken
       SessionCreateInput.userId SessionCreateInput.ipAddress
       SessionCreateInput.userAgent sessions users set_drawn issued clock].
  destruct (new_Date _) as [expiry|] eqn:Hdate; [|left; eexists; reflexivity].
  destruct (existsb (has_token _) (sessions w)) eqn:Htok;
    [left; eexists; reflexivity|].
  destruct (existsb (has_id _) (users w)) eqn:Hid;
    [|left; eexists; reflexivity].
  right; eexists; split; [reflexivity|].
  repeat split.
  - intros Hin; apply existsb_has_token in Hin; congruence.
  - apply existsb_exists in Hid; destruct Hid as (u & Hu & E).
    exists u; split; [exact Hu | now apply String.eqb_eq].
  - cbn [Session.expiresAt]. unfold new_Date in Hdate.
    destruct (Z.leb _ _); [|discriminate].
    injection Hdate as <-; lia.
Qed.

(** C4, as the code behaves: createSession draws one token and attempts the
    insert once; when the store rejects the insert because the token is
    already taken, the rejection (Prisma's unique-constraint error on
    sessionToken) surfaces at once, with exactly one token's worth of random
    bytes consumed and both tables as they were. *)
Theorem createSession_single_attempt
    (userId : string) (ip ua : option string) (w : World) :
  In (next_token w) (map Session.sessionToken (sessions w)) ->
  (Z.abs (clock w + 86400 * 1000) <= max_time_value)%Z ->
  createSession userId ip ua w
  = (Err (P2002 "sessionToken"), set_drawn (drawn w + 32) w).
Proof.
  intros Hdup Hday.
  rewrite createSession_unfold; unfold prisma_session_create, new_Date.
  replace (clock w + 24 * 60 * 60 * 1000)%Z
    with (clock w + 86400 * 1000)%Z by lia.
  apply Z.leb_le in Hday; rewrite Hday.
  cbn [SessionCreateInput.expiresAt SessionCreateInput.sessionToken
       sessions set_drawn].
  apply existsb_has_token in Hdup; now rewrite Hdup.
Qed.

Lemma createSession_single_attempt_witness :
  createSession "c0" None None one_session
  = (Err (P2002 "sessionToken"), set_drawn 32 one_session).
Proof.
  apply (createSession_single_attempt "c0" None None one_session).
  - left; reflexivity.
  - vm_compute; discriminate.
Defined.

(** C4, as stated, fails: with Alice's token drawn again the call
    is rejected, although the next token of the source is free and a second
    attempt in the state left behind goes through. *)
Lemma createSession_does_not_retry :
  fst (createSession "c0" None None one_session) = Err (P2002 "sessionToken")
  /\ exists s w2,
       createSession "c0" None None
         (snd (createSession "c0" None None one_session)) = (Ok s, w2).
Proof.
  split; [|eexists; eexists]; vm_compute; reflexivity.
Qed.

(** ** What keeps the store consistent *)

Lemma tokens_unique_filter (keep : Session.t -> bool) (ss : list Session.t) :
  NoDup (map Session.sessionToken ss) ->
  NoDup (map Session.sessionToken (filter keep ss)).
Proof.
  induction ss as [|s ss IH]; simpl; [trivial|].
  intros Hnd; inversion Hnd as [|? ? Hnotin Hrest]; subst.
  destruct (keep s); simpl; [constructor|]; auto.
  intros Hin; apply Hnotin.
  apply in_map_iff in Hin; destruct Hin as (x & Hx & Hin).
  apply filter_In in Hin; destruct Hin as [Hin _].
  rewrite <- Hx; now apply in_map.
Qed.

Lemma invariant_same_tables (w w1 : World) :
  users w1 = users w -> sessions w1 = sessions w -> issued w1 = issued w ->
  invariant w -> invariant w1.
Proof.
  unfold invariant, consistent, tokens_unique, sessions_owned, users_unique,
    ids_issued, passwords_hashed.
  intros -> -> ->; trivial.
Qed.

Lemma invariant_add_user (w w1 : World) (u : User.t) :
  users w1 = (users w ++ [u])%list -> sessions w1 = sessions w ->
  issued w1 = S (issued w) ->
  User.id u = cuid_of (issued w) -> cost10_digest (User.password u) ->
  invariant w -> invariant w1.
Proof.
  unfold invariant, consistent, tokens_unique, sessions_owned, users_unique,
    ids_issued, passwords_hashed.
  intros -> -> -> Hid Hpw ((Htok & Hown & Huniq) & Hiss & Hhash).
  repeat split.
  - exact Htok.
  - intros s Hs; destruct (Hown s Hs) as (u0 & Hu0 & E).
    exists u0; split; [apply in_or_app; now left | exact E].
  - rewrite map_app; apply NoDup_app; [exact Huniq | repeat constructor; intros [] |].
    intros a Ha [E|[]]; subst a.
    apply in_map_iff in Ha; destruct Ha as (u0 & E & Hu0).
    destruct (Hiss u0 Hu0) as (k & Hk & Ek).
    rewrite Hid, Ek in E; apply cuid_of_inj in E; lia.
  - intros u0 Hu0; apply in_app_or in Hu0; destruct Hu0 as [Hu0|[<-|[]]].
    + destruct (Hiss u0 Hu0) as (k & Hk & Ek); exists k; split; [lia | exact Ek].
    + exists (issued w); split; [lia | exact Hid].
  - intros u0 Hu0; apply in_app_or in Hu0; destruct Hu0 as [Hu0|[<-|[]]];
      [now apply Hhash | exact Hpw].
Qed.

Lemma invariant_add_session (w w1 : World) (row : Session.t) :
  users w1 = users w -> sessions w1 = (sessions w ++ [row])%list ->
  issued w1 = S (issued w) ->
  ~ In (Session.sessionToken row) (map Session.sessionToken (sessions w)) ->
  (exists u, In u (users w) /\ User.id u = Session.userId row) ->
  invariant w -> invariant w1.
Proof.
  unfold invariant, consistent, tokens_unique, sessions_owned, users_unique,
    ids_issued, passwords_hashed.
  intros -> -> -> Hfresh Howner ((Htok & Hown & Huniq) & Hiss & Hhash).
  repeat split; try assumption.
  - rewrite map_app; apply NoDup_app; [exact Htok | repeat constructor; intros [] |].
    intros a Ha [E|[]]; subst a; now apply Hfresh.
  - intros s Hs; apply in_app_or in Hs; destruct Hs as [Hs|[<-|[]]];
      [now apply Hown | exact Howner].
  - intros u0 Hu0; destruct (Hiss u0 Hu0) as (k & Hk & Ek).
    exists k; split; [lia | exact Ek].
Qed.

Lemma invariant_remove_sessions (w w1 : World) (p : Session.t -> bool) :
  users w1 = users w -> sessions w1 = filter p (sessions w) ->
  issued w1 = issued w ->
  invariant w -> invariant w1.
Proof.
  unfold invariant, consistent, tokens_unique, sessions_owned, users_unique,
    ids_issued, passwords_hashed.
  intros -> -> -> ((Htok & Hown & Huniq) & Hiss & Hhash).
  repeat split; try assumption.
  - now apply tokens_unique_filter.
  - intros s Hs; apply filter_In in Hs; now apply Hown.
Qed.

Lemma boot_invariant (now : Z) (source : nat -> byte) :
  invariant (boot now source).
Proof.
  repeat split; try (intros ? []); constructor.
Qed.

(** ** A session's life *)

(** X14: a session that createSession issued is found by getValidSession,
    with the user it was issued for, at every moment of the following 24
    hours, and is absent from then on although its row is still there. *)
Lemma createSession_round_trip
    (userId : string) (ip ua : option string) (w w1 : World) (s : Session.t) :
  invariant w ->
  createSession userId ip ua w = (Ok s, w1) ->
  (forall ms, (0 <= ms < 86400 * 1000)%Z ->
     exists u,
       User.id u = userId
       /\ Mutation.getValidSession (Session.sessionToken s)
            (set_clock (clock w1 + ms) w1)
          = (Ok (Some (s, u)), set_clock (clock w1 + ms) w1))
  /\ (forall ms, (86400 * 1000 <= ms)%Z ->
        In s (sessions (set_clock (clock w1 + ms) w1))
        /\ Mutation.getValidSession (Session.sessionToken s)
             (set_clock (clock w1 + ms) w1)
           = (Ok None, set_clock (clock w1 + ms) w1)).
Proof.
  intros Hinv Hcreate.
  destruct (createSession_cases userId ip ua w)
    as [(err & E)|(row & E & Hu & Ht & Hfresh & (u & Hin & Hid) & Hexp)];
    rewrite E in Hcreate; [discriminate|].
  injection Hcreate as <- <-.
  match goal with
  | |- context [set_clock _ ?w1] =>
      assert (Hinv1 : invariant w1)
        by (apply (invariant_add_session w _ row); try reflexivity;
            [exact (eq_ind_r (fun t => ~ In t _) Hfresh Ht)
            | exists u; split; [exact Hin | now rewrite Hu]
            | exact Hinv])
  end.
  destruct Hinv1 as ((Htok & _ & Huniq) & _).
  assert (Hrow : In row (sessions w ++ [row])%list)
    by (apply in_or_app; right; now left).
  cbn [clock set_issued set_sessions set_drawn].
  split.
  - intros ms Hms; exists u; split; [exact Hid|].
    apply getValidSession_live; try assumption; try reflexivity.
    + cbn [clock set_clock]; lia.
    + now rewrite Hu.
  - intros ms Hms; split; [exact Hrow|].
    apply (getValidSession_expired _ _ row); try assumption; try reflexivity.
    cbn [clock set_clock]; lia.
Qed.

(** ** Credentials *)

Lemma string_app_inv_head (s a b : string) : s ++ a = s ++ b -> a = b.
Proof.
  induction s as [|c s IH]; simpl; [trivial|].
  intros [= H]; auto.
Qed.

Lemma bcrypt_format_inj (minor : ascii) (cost : nat) (salt h1 h2 : string) :
  bcrypt_format minor cost salt h1 = bcrypt_format minor cost salt h2 ->
  h1 = h2.
Proof.
  unfold bcrypt_format, two_digits; cbn [append].
  intros [= H]. now apply string_app_inv_head in H.
Qed.

Section CredentialFacts.

Variable bcrypt_raw : ascii -> nat -> string -> string -> string.
Variable on_malformed : Result bool.

Lemma hashPassword_unfold (password : string) (w : World) :
  hashPassword bcrypt_raw password w
  = (Ok (bcrypt_hashpw bcrypt_raw "b" 10 (next_salt w) password),
     set_drawn (drawn w + 16) w).
Proof. reflexivity. Qed.

Lemma hashPassword_parse (password : string) (w : World) :
  bcrypt_parse (bcrypt_hashpw bcrypt_raw "b" 10 (next_salt w) password)
  = Some ("b"%char, 10, next_salt w,
          bcrypt_raw "b" 10 (next_salt w) password).
Proof.
  destruct (encode_base64_salt (map (entropy w) (seq (drawn w) 16)))
    as [Hlen Hb64]; [now rewrite length_map, length_seq|].
  unfold bcrypt_hashpw.
  apply bcrypt_parse_format; [reflexivity | lia | exact Hlen | exact Hb64].
Qed.

Lemma verifyPassword_parsed (password digest : string) minor cost salt hash w :
  bcrypt_parse digest = Some (minor, cost, salt, hash) ->
  verifyPassword bcrypt_raw on_malformed password digest w
  = (Ok (String.eqb (bcrypt_raw minor cost salt password) hash), w).
Proof.
  intros Hp. unfold verifyPassword, bcrypt_compare; rewrite Hp.
  unfold ret; do 2 f_equal.
  destruct (bcrypt_format_parse _ _ _ _ _ Hp) as [<- _].
  unfold bcrypt_hashpw.
  destruct (String.eqb_spec (bcrypt_raw minor cost salt password) hash)
    as [->|Hne].
  - apply String.eqb_refl.
  - apply String.eqb_neq; intros E; apply Hne.
    exact (bcrypt_format_inj _ _ _ _ _ E).
Qed.

(** C2: for every password p, verifying p against the digest that hashing
    p produced resolves to true, whatever salt the random source gave and
    whenever the check is made. *)
Theorem verify_hash_roundtrip (p : string) (w : World) :
  exists digest w1,
    hashPassword bcrypt_raw p w = (Ok digest, w1)
    /\ forall w2,
         verifyPassword bcrypt_raw on_malformed p digest w2 = (Ok true, w2).
Proof.
  rewrite hashPassword_unfold.
  eexists; eexists; split; [reflexivity|].
  intros w2.
  rewrite (verifyPassword_parsed _ _ _ _ _ _ _ (hashPassword_parse p w)).
  now rewrite String.eqb_refl.
Qed.

(** C6: on a well-formed digest, verify never signals an error: it
    resolves to whether the hash recomputed from the plaintext with the
    digest's own parameters is the digest's hash, hence to false when the
    plaintext does not match. *)
Theorem verify_mismatch_is_false (p digest : string) (w : World) :
  well_formed_digest digest ->
  exists minor cost salt hash,
    bcrypt_parse digest = Some (minor, cost, salt, hash)
    /\ verifyPassword bcrypt_raw on_malformed p digest w
       = (Ok (String.eqb (bcrypt_raw minor cost salt p) hash), w)
    /\ (bcrypt_raw minor cost salt p <> hash ->
        verifyPassword bcrypt_raw on_malformed p digest w = (Ok false, w)).
Proof.
  unfold well_formed_digest.
  destruct (bcrypt_parse digest) as [[[[minor cost] salt] hash]|] eqn:Hp;
    [intros _ | intros H; now contradiction H].
  exists minor, cost, salt, hash.
  rewrite (verifyPassword_parsed p digest _ _ _ _ w Hp).
  repeat split.
  intros Hne; apply String.eqb_neq in Hne; now rewrite Hne.
Qed.


(** *** Registration *)

Lemma registerUser_unfold (email password username : string) (w : World) :
  registerUser bcrypt_raw email password username w
  = db_user_create
      (UserCreateInput.mk email
         (bcrypt_hashpw bcrypt_raw "b" 10 (next_salt w) password) username)
      (set_drawn (drawn w + 16) w).
Proof. reflexivity. Qed.

(** What a call of [registerUser] can do to the world. *)
Lemma registerUser_cases (email password username : string) (w : World) :
  (exists e,
      registerUser bcrypt_raw email password username w
      = (Err e, set_drawn (drawn w + 16) w))
  \/ (exists u,
        registerUser bcrypt_raw email password username w
        = (Ok u,
           set_issued (S (issued w))
             (set_users (users w ++ [u]) (set_drawn (drawn w + 16) w)))
        /\ User.id u = cuid_of (issued w)
        /\ User.password u
           = bcrypt_hashpw bcrypt_raw "b" 10 (next_salt w) password).
Proof.
  rewrite registerUser_unfold; unfold db_user_create.
  cbn [users set_drawn issued clock UserCreateInput.username
       UserCreateInput.email UserCreateInput.password].
  destruct (existsb _ (users w)); [left; eexists; reflexivity|].
  destruct (existsb _ (users w)); [left; eexists; reflexivity|].
  right; eexists; split; [reflexivity|]. split; reflexivity.
Qed.


(** *** The invariant along histories *)

Lemma handle_invariant (w : World) (r : Request) :
  invariant w -> invariant (handle bcrypt_raw w r).
Proof.
  intros Hinv; destruct r as [e p u|uid ip ua|tok|tok|ms|ms]; cbn [handle].
  - destruct (registerUser_cases e p u w) as [(err & ->)|(row & -> & Hid & Hpw)];
      cbn [snd].
    + now apply (invariant_same_tables w).
    + apply (invariant_add_user w _ row); try reflexivity; try assumption.
      rewrite Hpw; eexists; eexists; apply hashPassword_parse.
  - destruct (createSession_cases uid ip ua w)
      as [(err & ->)|(row & -> & Hu & Ht & Hfresh & Howner & _)]; cbn [snd].
    + now apply (invariant_same_tables w).
    + apply (invariant_add_session w _ row); try reflexivity; try assumption.
      * now rewrite Ht.
      * now rewrite Hu.
  - unfold invalidateSession, prisma_session_delete.
    destruct (find (has_token tok) (sessions w)); cbn [snd]; [|exact Hinv].
    now apply (invariant_remove_sessions w _
                 (fun s => negb (has_token tok s))).
  - rewrite getValidSession_unfold.
    destruct (find _ (sessions w)); [|exact Hinv].
    destruct (find _ (users w)); exact Hinv.
  - now apply (invariant_same_tables w).
  - now apply (invariant_same_tables w).
Qed.

Lemma run_invariant (history : list Request) (w : World) :
  invariant w -> invariant (run bcrypt_raw history w).
Proof.
  revert w; induction history as [|r history IH]; intros w Hinv; [exact Hinv|].
  apply IH, handle_invariant, Hinv.
Qed.




(** C5, as the code behaves: registerUser is one insert of the User row and
    issues no session: rejected, it leaves both tables as they were;
    accepted, it adds exactly the new row and leaves the session table
    alone.  A createSession for the new user that is then rejected leaves
    both tables as registerUser left them, the new User row included. *)
Theorem registerUser_single_insert
    (email p username : string) (ip ua : option string) (w : World) :
  match registerUser bcrypt_raw email p username w with
  | (Err _, w1) => users w1 = users w /\ sessions w1 = sessions w
  | (Ok u, w1) =>
      users w1 = (users w ++ [u])%list /\ sessions w1 = sessions w
      /\ match createSession (User.id u) ip ua w1 with
         | (Ok s, w2) =>
             users w2 = users w1
             /\ sessions w2 = (sessions w1 ++ [s])%list
             /\ Session.userId s = User.id u
         | (Err _, w2) =>
             users w2 = users w1 /\ sessions w2 = sessions w1
             /\ In u (users w2)
         end
  end.
Proof.
  destruct (registerUser_cases email p username w)
    as [(err & ->)|(u & -> & _ & _)]; [split; reflexivity|].
  split; [reflexivity|]. split; [reflexivity|].
  match goal with
  | |- context [createSession ?uid ?i ?a ?w1] =>
      destruct (createSession_cases uid i a w1)
        as [(err & ->)|(row & -> & Hu & _)]
  end.
  - repeat split. cbn [users set_drawn set_issued set_users].
    apply in_or_app; right; now left.
  - repeat split. exact Hu.
Qed.

End CredentialFacts.

(** ** The facts at work on the sample worlds *)

Lemma one_session_consistent : consistent one_session.
Proof.
  repeat split.
  - repeat constructor; intros [].
  - intros s [<-|[]]; exists alice; split; [now left | reflexivity].
  - repeat constructor; intros [].
Qed.

Lemma getValidSession_spec_witness :
  consistent one_session
  /\ Mutation.getValidSession first_token one_session
     = (Ok (Some (alice_session, alice)), one_session).
Proof.
  split; [exact one_session_consistent|].
  apply (proj1 (proj2 (proj2 (getValidSession_spec first_token one_session
                                one_session_consistent)))).
  repeat split; try (now left).
Defined.

Lemma generateSessionExpiry_adds_hours_witness :
  generateSessionExpiry None one_session
  = (Ok (TimeValue (sample_time + 86400 * 1000)), one_session)
  /\ generateSessionExpiry (Some 1%Z) one_session
     = (Ok (TimeValue (sample_time + 1 * 3600 * 1000)), one_session).
Proof.
  destruct (generateSessionExpiry_adds_hours 1 one_session) as (H1 & H2 & _).
  - vm_compute; discriminate.
  - vm_compute; discriminate.
  - split; [exact H1 | exact H2].
Defined.

Lemma verify_mismatch_is_false_witness :
  well_formed_digest (User.password alice)
  /\ verifyPassword sample_raw (Err BcryptError) "wrong" (User.password alice)
       one_session
     = (Ok false, one_session).
Proof.
  assert (W : well_formed_digest (User.password alice))
    by (vm_compute; discriminate).
  split; [exact W|].
  destruct (verify_mismatch_is_false sample_raw (Err BcryptError) "wrong"
              (User.password alice) one_session W)
    as (minor & cost & salt & hash & Hparse & _ & Hfalse).
  apply Hfalse.
  vm_compute in Hparse; injection Hparse as <- <- <- <-.
  vm_compute; discriminate.
Defined.

(** C5, as stated, fails.  With a random source that is stuck,
    Alice registers and logs in on a fresh database; Bob then registers, the
    session issued for him is rejected (his token is Alice's), and his User
    row is still in the table.  This holds whatever bcrypt computes. *)
Lemma register_is_not_atomic :
  exists history email p username,
  forall raw,
  exists u w1 w2,
    registerUser raw email p username
      (run raw history (boot sample_time stuck)) = (Ok u, w1)
    /\ createSession (User.id u) None None w1
       = (Err (P2002 "sessionToken"), w2)
    /\ In u (users w2).
Proof.
  exists [Register "a@x.com" "pw123!" "alice"; CreateSession "c0" None None].
  exists "b@x.com", "hunter2", "bob".
  intros raw; eexists; eexists; eexists.
  split; [vm_compute; reflexivity|].
  split; [vm_compute; reflexivity|].
  cbn [users]; right; left; reflexivity.
Qed.



(** * Further facts about the snippets *)

(** ** Looking rows up after a change *)

Lemma find_session_filter (p keep : Session.t -> bool) (ss : list Session.t) :
  (forall s, p s = true -> keep s = true) ->
  find p (filter keep ss) = find p ss.
Proof.
  intros Himp; induction ss as [|s ss IH]; [reflexivity|].
  cbn [filter find].
  destruct (p s) eqn:P.
  - rewrite (Himp s P); cbn [find]; now rewrite P.
  - destruct (keep s); cbn [find]; [now rewrite P | exact IH].
Qed.

Lemma find_session_snoc (p : Session.t -> bool) (ss : list Session.t) (row : Session.t) :
  p row = false -> find p (ss ++ [row])%list = find p ss.
Proof.
  intros Hrow; induction ss as [|s ss IH]; cbn [app find].
  - now rewrite Hrow.
  - destruct (p s); [reflexivity | exact IH].
Qed.

Lemma find_user_snoc (id : string) (us : list User.t) (u : User.t) :
  find (has_id id) us <> None ->
  find (has_id id) (us ++ [u])%list = find (has_id id) us.
Proof.
  induction us as [|u0 us IH]; cbn [app find]; [intros H; now contradiction H|].
  destruct (has_id id u0); [reflexivity | exact IH].
Qed.

(** Two worlds in which the validator sees the same rows give the same
    answer. *)
Lemma getValidSession_agree (token : string) (w w' : World) :
  clock w' = clock w ->
  find (fun s => has_token token s && Z.ltb (clock w) (Session.expiresAt s))
    (sessions w')
  = find (fun s => has_token token s && Z.ltb (clock w) (Session.expiresAt s))
      (sessions w) ->
  (forall row,
      In row (sessions w) ->
      find (has_id (Session.userId row)) (users w')
      = find (has_id (Session.userId row)) (users w)) ->
  fst (Mutation.getValidSession token w')
  = fst (Mutation.getValidSession token w).
Proof.
  intros Hclock Hrows Howners.
  rewrite !getValidSession_unfold, Hclock, Hrows.
  destruct (find _ (sessions w)) as [row|] eqn:F; [|reflexivity].
  apply find_some in F; destruct F as [Hin _].
  rewrite (Howners row Hin).
  now destruct (find _ (users w)).
Qed.

(** ** Logging out *)

(** X1: once invalidateSession(token) has run, whether it deleted a row or
    was rejected, getValidSession(token) is absent. *)
Theorem invalidateSession_then_absent (token : string) (w : World) :
  Mutation.getValidSession token (snd (invalidateSession token w))
  = (Ok None, snd (invalidateSession token w)).
Proof.
  apply getValidSession_absent.
  unfold invalidateSession, prisma_session_delete.
  destruct (find (has_token token) (sessions w)) eqn:F; cbn [snd].
  - cbn [sessions set_sessions]; intros s Hs E.
    apply filter_In in Hs; destruct Hs as [_ Hs].
    unfold has_token in Hs; rewrite E, String.eqb_refl in Hs; discriminate.
  - intros s Hs E; apply (find_none _ _ F) in Hs.
    unfold has_token in Hs; rewrite E, String.eqb_refl in Hs; discriminate.
Qed.

(** X2: invalidateSession(token) leaves the validation of every other token
    as it was. *)
Theorem invalidateSession_spares_others (token other : string) (w : World) :
  other <> token ->
  fst (Mutation.getValidSession other (snd (invalidateSession token w)))
  = fst (Mutation.getValidSession other w).
Proof.
  intros Hne.
  unfold invalidateSession, prisma_session_delete.
  destruct (find (has_token token) (sessions w)); cbn [snd]; [|reflexivity].
  apply getValidSession_agree; [reflexivity | | reflexivity].
  cbn [sessions set_sessions].
  apply find_session_filter; intros s Hs.
  apply andb_true_iff in Hs; destruct Hs as [Hs _].
  unfold has_token in *; apply String.eqb_eq in Hs.
  apply negb_true_iff, String.eqb_neq; congruence.
Qed.

(** ** Time *)

(** X3: the passing of time alone never revives a token: when
    getValidSession(token) is absent now, it is absent at every later time
    in the same store. *)
Theorem absent_stays_absent (token : string) (w : World) (ms : Z) :
  Mutation.getValidSession token w = (Ok None, w) ->
  (0 <= ms)%Z ->
  Mutation.getValidSession token (set_clock (clock w + ms) w)
  = (Ok None, set_clock (clock w + ms) w).
Proof.
  rewrite !getValidSession_unfold.
  destruct (find _ (sessions w)) as [row|] eqn:F.
  - destruct (find _ (users w)); discriminate.
  - intros _ Hms; cbn [sessions clock set_clock].
    rewrite find_all_false; [reflexivity|].
    intros s Hs; apply (find_none _ _ F) in Hs; cbv beta in Hs.
    destruct (has_token token s); [|reflexivity].
    cbn [andb] in *; apply Z.ltb_ge in Hs; apply Z.ltb_ge; lia.
Qed.

(** ** What createSession hands back *)

Lemma createSession_row
    (userId : string) (ip ua : option string) (w w1 : World) (s : Session.t) :
  createSession userId ip ua w = (Ok s, w1) ->
  s = Session.mk (cuid_of (issued w)) userId (next_token w)
        (clock w + 86400 * 1000)%Z ip ua
        (store_now w) (store_now w) (store_now w)
  /\ w1 = set_issued (S (issued w))
            (set_sessions (sessions w ++ [s]) (set_drawn (drawn w + 32) w))
  /\ ~ In (next_token w) (map Session.sessionToken (sessions w))
  /\ exists u, In u (users w) /\ User.id u = userId.
Proof.
  rewrite createSession_unfold; unfold prisma_session_create, store_now.
  cbn [SessionCreateInput.expiresAt SessionCreateInput.sessionToken
       SessionCreateInput.userId SessionCreateInput.ipAddress
       SessionCreateInput.userAgent sessions users set_drawn issued clock
       lag].
  destruct (new_Date _) as [expiry|] eqn:Hdate; [|discriminate].
  destruct (existsb (has_token _) (sessions w)) eqn:Htok; [discriminate|].
  destruct (existsb (has_id _) (users w)) eqn:Hid; [|discriminate].
  cbn [negb]; cbv zeta; intros H; injection H as <- <-.
  assert (expiry = (clock w + 86400 * 1000)%Z) as ->.
  { unfold new_Date in Hdate. destruct (Z.leb _ _); [|discriminate].
    injection Hdate as <-; lia. }
  repeat split.
  - intros Hin; apply existsb_has_token in Hin; congruence.
  - apply existsb_exists in Hid; destruct Hid as (u & Hu & E).
    exists u; split; [exact Hu | now apply String.eqb_eq].
Qed.

(** X4: the session createSession resolves to is for the given user, who
    exists, carries the given address and agent, a token of 64 hexadecimal
    characters that no stored session had, and an expiry exactly 24 hours
    after the clock reading of the call, which is at most 24 hours after its
    creation stamp; it is the one row added to the session table, and the
    user table is untouched. *)
Theorem createSession_issues
    (userId : string) (ip ua : option string) (w w1 : World) (s : Session.t) :
  createSession userId ip ua w = (Ok s, w1) ->
  Session.userId s = userId
  /\ Session.ipAddress s = ip /\ Session.userAgent s = ua
  /\ String.length (Session.sessionToken s) = 64
  /\ string_forallb is_hex (Session.sessionToken s) = true
  /\ ~ In (Session.sessionToken s) (map Session.sessionToken (sessions w))
  /\ Session.expiresAt s = (clock w + 86400 * 1000)%Z
  /\ (clock w <= Session.createdAt s)%Z
  /\ (Session.expiresAt s <= Session.createdAt s + 86400 * 1000)%Z
  /\ (exists u, In u (users w) /\ User.id u = userId)
  /\ sessions w1 = (sessions w ++ [s])%list
  /\ users w1 = users w.
Proof.
  intros H; apply createSession_row in H.
  destruct H as (-> & -> & Hfresh & Howner).
  cbn [Session.userId Session.ipAddress Session.userAgent Session.sessionToken
       Session.createdAt Session.expiresAt].
  assert (Hlen : String.length (next_token w) = 64)
    by (unfold next_token;
        now rewrite toString_hex_length, length_map, length_seq).
  assert (Hhex : string_forallb is_hex (next_token w) = true)
    by apply toString_hex_is_hex.
  assert (Hstamp : (clock w <= store_now w)%Z) by (unfold store_now; lia).
  repeat split; try assumption; lia.
Qed.

(** X5: createSession for a userId that no User row has is rejected, and
    neither table changes. *)
Theorem createSession_unknown_user
    (userId : string) (ip ua : option string) (w : World) :
  (forall u, In u (users w) -> User.id u <> userId) ->
  exists e,
    createSession userId ip ua w = (Err e, set_drawn (drawn w + 32) w).
Proof.
  intros Hnone.
  destruct (createSession userId ip ua w) as [[s|e] w1] eqn:E.
  - apply createSession_row in E.
    destruct E as (_ & _ & _ & u & Hu & Hid).
    now contradiction (Hnone u Hu).
  - destruct (createSession_cases userId ip ua w)
      as [(e' & E')|(row & E' & _)]; rewrite E in E'; [|discriminate].
    injection E' as <- <-; now exists e.
Qed.

(** X6: createSession leaves the validation of every token already in the
    store as it was, whether the call succeeds or is rejected. *)
Theorem createSession_spares_others
    (userId : string) (ip ua : option string) (w : World) (other : string) :
  In other (map Session.sessionToken (sessions w)) ->
  fst (Mutation.getValidSession other (snd (createSession userId ip ua w)))
  = fst (Mutation.getValidSession other w).
Proof.
  intros Hother.
  destruct (createSession_cases userId ip ua w)
    as [(e & ->)|(row & -> & _ & Ht & Hfresh & _)]; cbn [snd];
    [now apply getValidSession_agree|].
  apply getValidSession_agree; [reflexivity | | reflexivity].
  cbn [sessions set_issued set_sessions set_drawn].
  apply find_session_snoc.
  unfold has_token; rewrite Ht.
  destruct (String.eqb_spec (next_token w) other) as [E|_]; [|reflexivity].
  exfalso; apply Hfresh; now rewrite E.
Qed.

(** ** Tokens and the random source *)

Lemma hex_digit_inj (i j : nat) :
  i < 16 -> j < 16 -> hex_digit i = hex_digit j -> i = j.
Proof.
  intros Hi Hj.
  do 16 (destruct i as [|i]; [do 16 (destruct j as [|j];
    [first [reflexivity | discriminate]|]); lia|]).
  lia.
Qed.

Lemma hex_of_byte_inj (b1 b2 : byte) :
  hex_of_byte b1 = hex_of_byte b2 -> b1 = b2.
Proof.
  unfold hex_of_byte; intros H.
  assert (Hhi : hex_digit (Byte.to_nat b1 / 16)
                = hex_digit (Byte.to_nat b2 / 16)) by congruence.
  assert (Hlo : hex_digit (Byte.to_nat b1 mod 16)
                = hex_digit (Byte.to_nat b2 mod 16)) by congruence.
  clear H.
  pose proof (Byte.to_nat_bounded b1) as B1.
  pose proof (Byte.to_nat_bounded b2) as B2.
  apply hex_digit_inj in Hhi;
    [|apply Nat.Div0.div_lt_upper_bound; lia
     |apply Nat.Div0.div_lt_upper_bound; lia].
  apply hex_digit_inj in Hlo;
    [|apply Nat.mod_upper_bound; discriminate
     |apply Nat.mod_upper_bound; discriminate].
  assert (E : Byte.to_nat b1 = Byte.to_nat b2).
  { rewrite (Nat.div_mod_eq (Byte.to_nat b1) 16).
    rewrite (Nat.div_mod_eq (Byte.to_nat b2) 16).
    now rewrite Hhi, Hlo. }
  pose proof (Byte.of_to_nat b1) as O1.
  rewrite E, Byte.of_to_nat in O1; now injection O1.
Qed.

Lemma toString_hex_inj (buf1 buf2 : list byte) :
  toString_hex buf1 = toString_hex buf2 -> buf1 = buf2.
Proof.
  revert buf2; induction buf1 as [|b1 buf1 IH]; intros [|b2 buf2];
    try reflexivity; try discriminate.
  cbn [toString_hex]; unfold hex_of_byte at 1 2; cbn [append]; intros H.
  f_equal.
  - apply hex_of_byte_inj; unfold hex_of_byte; congruence.
  - apply IH; congruence.
Qed.

(** X7: generateSessionToken adds no collisions of its own: two calls with
    the same byte count return the same token only when the random source
    gave them the same bytes. *)
Theorem generateSessionToken_collision
    (bytes : option nat) (w w' : World) (token : string) :
  fst (generateSessionToken bytes w) = Ok token ->
  fst (generateSessionToken bytes w') = Ok token ->
  map (entropy w) (seq (drawn w) (or_default 32 bytes))
  = map (entropy w') (seq (drawn w') (or_default 32 bytes)).
Proof.
  destruct (generateSessionToken bytes w) as [r w1] eqn:E.
  destruct (generateSessionToken bytes w') as [r' w1'] eqn:E'.
  cbn [fst]; intros -> ->.
  apply generateSessionToken_returns in E, E'.
  destruct E as [E _], E' as [E' _].
  apply toString_hex_inj; congruence.
Qed.

(** ** Registration and what follows it *)

Section FlowFacts.

Variable bcrypt_raw : ascii -> nat -> string -> string -> string.
Variable on_malformed : Result bool.

Lemma registerUser_row (email p username : string) (w w1 : World) (u : User.t) :
  registerUser bcrypt_raw email p username w = (Ok u, w1) ->
  u = User.mk (cuid_of (issued w)) username email
        (bcrypt_hashpw bcrypt_raw "b" 10 (next_salt w) p)
        USER None 0%Z (store_now w) (store_now w)
  /\ w1 = set_issued (S (issued w))
            (set_users (users w ++ [u]) (set_drawn (drawn w + 16) w))
  /\ (forall u0, In u0 (users w) ->
        User.username u0 <> username /\ User.email u0 <> email).
Proof.
  rewrite registerUser_unfold; unfold db_user_create.
  cbn [users set_drawn issued clock UserCreateInput.username
       UserCreateInput.email UserCreateInput.password].
  destruct (existsb (fun u => String.eqb (User.username u) username)
              (users w)) eqn:Hname; [discriminate|].
  destruct (existsb (fun u => String.eqb (User.email u) email)
              (users w)) eqn:Hmail; [discriminate|].
  cbv zeta; intros H; injection H as <- <-; repeat split.
  - intros E; apply not_true_iff_false in Hname; apply Hname.
    apply existsb_exists; exists u0; split;
      [assumption | now apply String.eqb_eq].
  - intros E; apply not_true_iff_false in Hmail; apply Hmail.
    apply existsb_exists; exists u0; split;
      [assumption | now apply String.eqb_eq].
Qed.

Lemma registerUser_taken (email p username : string) (w : World) (u0 : User.t) :
  In u0 (users w) ->
  User.email u0 = email \/ User.username u0 = username ->
  exists field,
    registerUser bcrypt_raw email p username w
    = (Err (P2002 field), set_drawn (drawn w + 16) w).
Proof.
  intros Hin Hsame.
  rewrite registerUser_unfold; unfold db_user_create.
  cbn [users set_drawn issued clock UserCreateInput.username
       UserCreateInput.email UserCreateInput.password].
  destruct (existsb (fun u => String.eqb (User.username u) username)
              (users w)) eqn:Hname; [eexists; reflexivity|].
  destruct (existsb (fun u => String.eqb (User.email u) email)
              (users w)) eqn:Hmail; [eexists; reflexivity|].
  exfalso; destruct Hsame as [E|E].
  - apply not_true_iff_false in Hmail; apply Hmail.
    apply existsb_exists; exists u0; split;
      [assumption | now apply String.eqb_eq].
  - apply not_true_iff_false in Hname; apply Hname.
    apply existsb_exists; exists u0; split;
      [assumption | now apply String.eqb_eq].
Qed.

(** X8: registerUser succeeds only when no stored user has the email or the
    username, and once it has succeeded every further registerUser with the
    same email or the same username is rejected with the store's
    unique-constraint error, leaving both tables as they were. *)
Theorem registerUser_unique
    (email p username : string) (w w1 : World) (u : User.t)
    (email' p' username' : string) :
  registerUser bcrypt_raw email p username w = (Ok u, w1) ->
  email' = email \/ username' = username ->
  (forall u0, In u0 (users w) ->
     User.username u0 <> username /\ User.email u0 <> email)
  /\ exists field,
       registerUser bcrypt_raw email' p' username' w1
       = (Err (P2002 field), set_drawn (drawn w1 + 16) w1).
Proof.
  intros Hreg Hsame; apply registerUser_row in Hreg.
  destruct Hreg as (Hu & -> & Hfree); split; [exact Hfree|].
  apply (registerUser_taken email' p' username' _ u).
  - cbn [users set_issued set_users]; apply in_or_app; right; now left.
  - rewrite Hu; cbn [User.email User.username].
    destruct Hsame as [->| ->]; [now left | now right].
Qed.

(** X9: the password field registerUser stored verifies against the
    plaintext that was registered. *)
Theorem registerUser_then_verify
    (email p username : string) (w w1 w2 : World) (u : User.t) :
  registerUser bcrypt_raw email p username w = (Ok u, w1) ->
  verifyPassword bcrypt_raw on_malformed p (User.password u) w2
  = (Ok true, w2).
Proof.
  intros Hreg; apply registerUser_row in Hreg; destruct Hreg as (-> & _).
  cbn [User.password].
  rewrite (verifyPassword_parsed bcrypt_raw on_malformed _ _ _ _ _ _ _
             (hashPassword_parse bcrypt_raw p w)).
  now rewrite String.eqb_refl.
Qed.

(** X10: registering a user, creating a session for the id that came back
    and validating the session's token gives that session together with
    exactly the registered User row. *)
Theorem register_login_validate
    (email p username : string) (ip ua : option string)
    (w w1 w2 : World) (u : User.t) (s : Session.t) :
  invariant w ->
  registerUser bcrypt_raw email p username w = (Ok u, w1) ->
  createSession (User.id u) ip ua w1 = (Ok s, w2) ->
  Mutation.getValidSession (Session.sessionToken s) w2
  = (Ok (Some (s, u)), w2).
Proof.
  intros Hinv Hreg Hcreate.
  pose proof (handle_invariant bcrypt_raw w (Register email p username) Hinv)
    as Hinv1; cbn [handle] in Hinv1; rewrite Hreg in Hinv1; cbn [snd] in Hinv1.
  pose proof (handle_invariant bcrypt_raw w1 (CreateSession (User.id u) ip ua)
                Hinv1)
    as Hinv2; cbn [handle] in Hinv2; rewrite Hcreate in Hinv2;
    cbn [snd] in Hinv2.
  destruct Hinv2 as ((Htok & _ & Huniq) & _).
  apply registerUser_row in Hreg; destruct Hreg as (_ & Hw1 & _).
  apply createSession_row in Hcreate; destruct Hcreate as (Hs & Hw2 & _).
  apply getValidSession_live; try assumption; try reflexivity.
  - rewrite Hw2; cbn [sessions set_issued set_sessions].
    apply in_or_app; right; now left.
  - rewrite Hw2, Hs; cbn [clock set_issued set_sessions set_drawn
                           Session.expiresAt]; lia.
  - rewrite Hw2, Hw1; cbn [users set_issued set_sessions set_drawn set_users].
    apply in_or_app; right; now left.
  - now rewrite Hs.
Qed.

(** X11: in a store where every session's user exists, registerUser leaves
    the validation of every token as it was, whether the registration
    succeeds or is rejected. *)
Theorem registerUser_spares_sessions
    (email p username token : string) (w : World) :
  sessions_owned w ->
  fst (Mutation.getValidSession token
         (snd (registerUser bcrypt_raw email p username w)))
  = fst (Mutation.getValidSession token w).
Proof.
  intros Hown.
  destruct (registerUser_cases bcrypt_raw email p username w)
    as [(e & ->)|(u & -> & _)]; cbn [snd];
    [now apply getValidSession_agree|].
  apply getValidSession_agree; [reflexivity | reflexivity |].
  intros row Hrow; cbn [users set_issued set_users set_drawn].
  apply find_user_snoc.
  destruct (Hown row Hrow) as (owner & Hin & Hid).
  intros Hnone; apply (find_none _ _ Hnone) in Hin.
  unfold has_id in Hin; rewrite Hid, String.eqb_refl in Hin; discriminate.
Qed.

(** *** What every history keeps *)

Lemma handle_sessions_shaped (w : World) (r : Request) :
  sessions_shaped w -> sessions_shaped (handle bcrypt_raw w r).
Proof.
  intros Hshape; destruct r as [e p u|uid ip ua|tok|tok|ms|ms]; cbn [handle].
  - destruct (registerUser_cases bcrypt_raw e p u w)
      as [(err & ->)|(row & -> & _)]; exact Hshape.
  - destruct (createSession uid ip ua w) as [[s|err] w1] eqn:E; cbn [snd].
    + apply createSession_row in E; destruct E as (Hs & -> & _).
      intros s' Hin; cbn [sessions set_issued set_sessions] in Hin.
      apply in_app_or in Hin; destruct Hin as [Hin|[<-|[]]];
        [now apply Hshape|].
      rewrite Hs; cbn [Session.sessionToken Session.expiresAt
                       Session.createdAt].
      split; [|split; [apply toString_hex_is_hex | unfold store_now; lia]].
      unfold next_token.
      now rewrite toString_hex_length, length_map, length_seq.
    + destruct (createSession_cases uid ip ua w)
        as [(e' & E')|(row & E' & _)]; rewrite E in E'; [|discriminate].
      injection E' as _ ->; exact Hshape.
  - unfold invalidateSession, prisma_session_delete.
    destruct (find (has_token tok) (sessions w)); cbn [snd]; [|exact Hshape].
    intros s Hin; cbn [sessions set_sessions] in Hin.
    apply filter_In in Hin; now apply Hshape.
  - rewrite getValidSession_unfold.
    destruct (find _ (sessions w)); [|exact Hshape].
    destruct (find _ (users w)); exact Hshape.
  - exact Hshape.
  - exact Hshape.
Qed.

(** X12: in every store that grew from an empty database through the
    snippets, whatever the calls and their order, session tokens are
    pairwise distinct, every session belongs to a stored user, and user ids
    are pairwise distinct. *)
Theorem history_keeps_store_consistent
    (now : Z) (source : nat -> byte) (history : list Request) :
  consistent (run bcrypt_raw history (boot now source)).
Proof.
  apply (run_invariant bcrypt_raw history (boot now source)), boot_invariant.
Qed.

(** X13: in every store that grew from an empty database through the
    snippets, every session row has a token of 64 hexadecimal characters and
    expires at most 24 hours after its creation stamp. *)
Theorem history_keeps_sessions_shaped
    (now : Z) (source : nat -> byte) (history : list Request) :
  sessions_shaped (run bcrypt_raw history (boot now source)).
Proof.
  unfold run.
  assert (H0 : sessions_shaped (boot now source)) by (intros s []).
  revert H0; generalize (boot now source) as w.
  induction history as [|r history IH]; intros w Hw; [exact Hw|].
  cbn [fold_left]; apply IH, handle_sessions_shaped, Hw.
Qed.

End FlowFacts.

(** ** The further facts at work on the sample worlds *)

Lemma registered_invariant : invariant registered.
Proof.
  apply (run_invariant sample_raw), boot_invariant.
Qed.

Lemma invalidateSession_spares_others_witness :
  fst (Mutation.getValidSession first_token
         (snd (invalidateSession "no-such-token" one_session)))
  = fst (Mutation.getValidSession first_token one_session).
Proof.
  apply (invalidateSession_spares_others "no-such-token" first_token
           one_session).
  vm_compute; discriminate.
Defined.

Lemma absent_stays_absent_witness :
  Mutation.getValidSession "no-such-token"
    (set_clock (clock one_session + 1000) one_session)
  = (Ok None, set_clock (clock one_session + 1000) one_session).
Proof.
  apply (absent_stays_absent "no-such-token" one_session 1000).
  - reflexivity.
  - vm_compute; discriminate.
Defined.

Lemma createSession_issues_witness :
  exists s w1,
    createSession "c0" (Some "10.0.0.1") None registered = (Ok s, w1)
    /\ Session.userId s = "c0"
    /\ String.length (Session.sessionToken s) = 64.
Proof.
  destruct (createSession "c0" (Some "10.0.0.1") None registered)
    as [[s|e] w1] eqn:E; [|vm_compute in E; discriminate].
  exists s, w1; split; [reflexivity|].
  destruct (createSession_issues "c0" (Some "10.0.0.1") None registered w1 s E)
    as (Hu & _ & _ & Hlen & _).
  split; [exact Hu | exact Hlen].
Defined.

Lemma createSession_unknown_user_witness :
  exists e,
    createSession "nobody" None None one_session
    = (Err e, set_drawn (drawn one_session + 32) one_session).
Proof.
  apply (createSession_unknown_user "nobody" None None one_session).
  intros u [<-|[]]; discriminate.
Defined.

Lemma createSession_spares_others_witness :
  fst (Mutation.getValidSession first_token
         (snd (createSession "c0" None None (set_drawn 32 one_session))))
  = fst (Mutation.getValidSession first_token (set_drawn 32 one_session)).
Proof.
  apply (createSession_spares_others "c0" None None
           (set_drawn 32 one_session) first_token).
  left; reflexivity.
Defined.

Lemma generateSessionToken_collision_witness :
  map counting (seq 0 32) = map counting (seq 256 32).
Proof.
  apply (generateSessionToken_collision None one_session
           (set_drawn 256 one_session) first_token).
  - vm_compute; reflexivity.
  - vm_compute; reflexivity.
Defined.

Lemma createSession_round_trip_witness :
  exists s w1,
    createSession "c0" None None registered = (Ok s, w1)
    /\ Mutation.getValidSession (Session.sessionToken s)
         (set_clock (clock w1 + 86400 * 1000) w1)
       = (Ok None, set_clock (clock w1 + 86400 * 1000) w1).
Proof.
  destruct (createSession "c0" None None registered) as [[s|e] w1] eqn:E;
    [|vm_compute in E; discriminate].
  exists s, w1; split; [reflexivity|].
  destruct (createSession_round_trip "c0" None None registered w1 s
              registered_invariant E) as [_ Hlate].
  apply Hlate; vm_compute; discriminate.
Defined.

Lemma registerUser_unique_witness :
  exists u w1,
    registerUser sample_raw "a@x.com" "pw123!" "alice"
      (boot sample_time counting) = (Ok u, w1)
    /\ exists field,
         registerUser sample_raw "a@x.com" "other" "alice2" w1
         = (Err (P2002 field), set_drawn (drawn w1 + 16) w1).
Proof.
  destruct (registerUser sample_raw "a@x.com" "pw123!" "alice"
              (boot sample_time counting)) as [[u|e] w1] eqn:E;
    [|vm_compute in E; discriminate].
  exists u, w1; split; [reflexivity|].
  apply (registerUser_unique sample_raw "a@x.com" "pw123!" "alice"
           (boot sample_time counting) w1 u "a@x.com" "other" "alice2" E).
  left; reflexivity.
Defined.

Lemma registerUser_then_verify_witness :
  exists u w1,
    registerUser sample_raw "a@x.com" "pw123!" "alice"
      (boot sample_time counting) = (Ok u, w1)
    /\ verifyPassword sample_raw (Ok false) "pw123!" (User.password u) w1
       = (Ok true, w1).
Proof.
  destruct (registerUser sample_raw "a@x.com" "pw123!" "alice"
              (boot sample_time counting)) as [[u|e] w1] eqn:E;
    [|vm_compute in E; discriminate].
  exists u, w1; split; [reflexivity|].
  exact (registerUser_then_verify sample_raw (Ok false) "a@x.com" "pw123!"
           "alice" (boot sample_time counting) w1 w1 u E).
Defined.

Lemma register_login_validate_witness :
  exists u w1 s w2,
    registerUser sample_raw "a@x.com" "pw123!" "alice"
      (boot sample_time counting) = (Ok u, w1)
    /\ createSession (User.id u) None None w1 = (Ok s, w2)
    /\ Mutation.getValidSession (Session.sessionToken s) w2
       = (Ok (Some (s, u)), w2).
Proof.
  destruct (registerUser sample_raw "a@x.com" "pw123!" "alice"
              (boot sample_time counting)) as [[u|e] w1] eqn:E;
    [|vm_compute in E; discriminate].
  destruct (createSession (User.id u) None None w1) as [[s|e] w2] eqn:F.
  - exists u, w1, s, w2; split; [reflexivity|]. split; [exact F|].
    exact (register_login_validate sample_raw "a@x.com" "pw123!" "alice"
             None None (boot sample_time counting) w1 w2 u s
             (boot_invariant sample_time counting) E F).
  - exfalso. vm_compute in E; injection E as <- <-.
    vm_compute in F; discriminate.
Defined.

Lemma registerUser_spares_sessions_witness :
  fst (Mutation.getValidSession first_token
         (snd (registerUser sample_raw "b@x.com" "hunter2" "bob" one_session)))
  = fst (Mutation.getValidSession first_token one_session).
Proof.
  apply (registerUser_spares_sessions sample_raw "b@x.com" "hunter2" "bob"
           first_token one_session).
  exact (proj1 (proj2 one_session_consistent)).
Defined.
